(** * ChatUserInput: mention reconciler and preview resolver

    A shallow embedding of
    [src/components/chat-view/chat-input/ChatUserInput.tsx].

    The component keeps three pieces of state in step: the externally owned
    list of mentionables (a prop replaced through [setMentionables]), the
    key of the mentionable shown in the preview pane, and the mention nodes
    of the embedded Lexical editor.  Handlers are modelled as functions from
    the state seen by the current render to the state after the handler's
    setter calls and editor updates have been applied.

    The keyboard effect at the end of the source file stands outside the
    component, after its export; it takes no part in the component's
    behaviour and is not embedded here. *)

From stdpp Require Import base option list strings numbers pretty.

#[local] Open Scope Z_scope.

(** ** Data model *)

(** Modelled from the spec: an Obsidian file handle ("live file handle");
    the component only ever reads its [path]. *)
Record TFile := mkTFile { path : string }.

#[global] Instance TFile_eq_dec : EqDecision TFile.
Proof. solve_decision. Defined.

(** Modelled from the spec: the image variant of [types/mentionable] with
    its raw image data; the component reads [data] and [name]. *)
Record MentionableImage := mkImage { name : string; data : string }.

#[global] Instance MentionableImage_eq_dec : EqDecision MentionableImage.
Proof. solve_decision. Defined.

(** Modelled from the spec: the tagged union of [types/mentionable], which
    is declared outside this file, as far as the component looks into it:
    the [type] tag (here the constructor), [file] (which the guards of the
    badge click handler and of the preview query treat as possibly null for
    the current file), [startLine] and [endLine] of a block.  Every further
    variant is handled opaquely and kept with a descriptor. *)
Inductive Mentionable :=
| MentionableFile (file : TFile)
| MentionableCurrentFile (file : option TFile)
| MentionableBlock (content : string) (file : TFile) (startLine endLine : Z)
| IsMentionableImage (image : MentionableImage)
| MentionableOther (descriptor : string).

#[global] Instance Mentionable_eq_dec : EqDecision Mentionable.
Proof. solve_decision. Defined.

(** [m.type === 'current-file' || m.type === 'file' || m.type === 'block'] *)
Definition isFileLike (m : Mentionable) : bool :=
  match m with
  | MentionableFile _ | MentionableCurrentFile _ | MentionableBlock _ _ _ _ => true
  | IsMentionableImage _ | MentionableOther _ => false
  end.

(** [m.file], [None] where the field is null or absent. *)
Definition mentionable_file (m : Mentionable) : option TFile :=
  match m with
  | MentionableFile f => Some f
  | MentionableCurrentFile f => f
  | MentionableBlock _ f _ _ => Some f
  | IsMentionableImage _ | MentionableOther _ => None
  end.

(** ** JavaScript string and array primitives used by the preview *)

Definition newline : Ascii.ascii := Ascii.ascii_of_nat 10.

(** [s.split('\n')] *)
Fixpoint split_lines (s : string) : list string :=
  match s with
  | EmptyString => [EmptyString]
  | String c rest =>
      if decide (c = newline) then EmptyString :: split_lines rest
      else match split_lines rest with
           | [] => [String c EmptyString]
           | l :: ls => String c l :: ls
           end
  end.

(** [lines.join('\n')] *)
Fixpoint join_lines (lines : list string) : string :=
  match lines with
  | [] => EmptyString
  | [l] => l
  | l :: ls => l +:+ String newline (join_lines ls)
  end.

(** [Array.prototype.slice(start, end)] on integer arguments: a negative
    index counts from the end and both indices are clamped to the array. *)
Definition js_slice {A} (start final : Z) (l : list A) : list A :=
  let len := Z.of_nat (length l) in
  let k := if decide (start < 0) then Z.max (len + start) 0 else Z.min start len in
  let e := if decide (final < 0) then Z.max (len + final) 0 else Z.min final len in
  take (Z.to_nat (e - k)) (drop (Z.to_nat k) l).

(** The kind of a Lexical node mutation. *)
Inductive NodeMutation := created | updated | destroyed.

#[global] Instance NodeMutation_eq_dec : EqDecision NodeMutation.
Proof. solve_decision. Defined.

Section Reconciler.

(** The serialized form of a mentionable and the three helpers of
    [utils/chat/mentionable] are imported by the component; the
    reconciler is parametric in them.  [deserializeMentionable] is
    already applied to [app] and answers [None] for JavaScript's [null]. *)
Context {SerializedMentionable : Type}.
Variable getMentionableKey : SerializedMentionable → string.
Variable serializeMentionable : Mentionable → SerializedMentionable.
Variable deserializeMentionable : SerializedMentionable → option Mentionable.

(** Modelled from the spec: a mention node of the editor (declared in
    [plugins/mention/MentionNode]), an inline token representing one
    mentionable: its Lexical node key and the serialized mentionable
    answered by [node.getMentionable()]. *)
Record MentionNode := mkMentionNode {
  nodeKey : string;
  getMentionable : SerializedMentionable
}.

(** Modelled from the spec: the node tree of the rich-text editor, an
    external collaborator, as its nodes in document order; nodes of other
    types only carry their node key. *)
Inductive LexicalNode :=
| IsMentionNode (n : MentionNode)
| OtherNode (key : string).

Definition lexicalKey (n : LexicalNode) : string :=
  match n with
  | IsMentionNode m => nodeKey m
  | OtherNode k => k
  end.

Definition EditorState := list LexicalNode.

(** [$nodesOfType(MentionNode)] *)
Definition nodesOfType (es : EditorState) : list MentionNode :=
  omap (λ n, match n with IsMentionNode m => Some m | OtherNode _ => None end) es.

(** [node.remove()]: the node with that node key leaves the tree.  How the
    editor tidies up around the gap (it may merge the text on both sides)
    is its own business; the handlers look at the tree through
    [$nodesOfType(MentionNode)] only, and so do the properties below. *)
Definition remove (n : MentionNode) (es : EditorState) : EditorState :=
  filter (λ x, lexicalKey x ≠ nodeKey n) es.

(** One entry of a [NodeMutations<MentionNode>] batch. *)
Record MentionMutation := mkMutation {
  mutation : NodeMutation;
  node : MentionNode
}.

(** The batch, in the iteration order of the map. *)
Definition NodeMutations := list MentionMutation.

(** What a handler sees and replaces: the [mentionables] prop, the
    [displayedMentionableKey] state and [editorRef.current] ([None] while
    the ref is still null). *)
Record State := mkState {
  mentionables : list Mentionable;
  displayedMentionableKey : option string;
  editor : option EditorState
}.

(** [getMentionableKey(serializeMentionable(m))], the derived key of a
    list entry. *)
Definition keyOf (m : Mentionable) : string :=
  getMentionableKey (serializeMentionable m).

(** [l.some((m) => key(m) === k)] *)
Definition some_key {A} (key : A → string) (k : string) (l : list A) : bool :=
  bool_decide (Exists (λ m, key m = k) l).

(** ** handleMentionNodeMutation *)

(** The lookup of the 'destroyed' branch:
    [editorRef.current?.read(() => $nodesOfType(MentionNode).find(...))]. *)
Definition nodeWithSameMentionable (st : State) (mentionableKey : string)
  : option MentionNode :=
  es ← editor st;
  snd <$> list_find (λ n, getMentionableKey (getMentionable n) = mentionableKey)
                    (nodesOfType es).

(** The body of [mutations.forEach], threading the two local arrays
    [destroyedMentionableKeys] and [addedMentionables]. *)
Definition mutationStep (st : State)
    (acc : list string * list SerializedMentionable) (mu : MentionMutation)
  : list string * list SerializedMentionable :=
  let '(destroyedMentionableKeys, addedMentionables) := acc in
  let mentionable := getMentionable (node mu) in
  let mentionableKey := getMentionableKey mentionable in
  match mutation mu with
  | destroyed =>
      match nodeWithSameMentionable st mentionableKey with
      | Some _ => acc
      | None => (destroyedMentionableKeys ++ [mentionableKey], addedMentionables)
      end
  | created =>
      if some_key keyOf mentionableKey (mentionables st)
         || some_key getMentionableKey mentionableKey addedMentionables
      then acc
      else (destroyedMentionableKeys, addedMentionables ++ [mentionable])
  | updated => acc
  end.

Definition collectMutations (st : State) (mutations : NodeMutations)
  : list string * list SerializedMentionable :=
  foldl (mutationStep st) ([], []) mutations.

Definition handleMentionNodeMutation (st : State) (mutations : NodeMutations)
  : State :=
  let '(destroyedMentionableKeys, addedMentionables) :=
    collectMutations st mutations in
  {| mentionables :=
       filter (λ m, keyOf m ∉ destroyedMentionableKeys) (mentionables st)
       ++ omap deserializeMentionable addedMentionables;
     displayedMentionableKey :=
       if decide (0 < length addedMentionables)%nat
       then getMentionableKey
              <$> addedMentionables !! (length addedMentionables - 1)%nat
       else displayedMentionableKey st;
     editor := editor st |}.

(** ** handleCreateImageMentionables *)

Definition handleCreateImageMentionables (st : State)
    (mentionableImages : list MentionableImage) : State :=
  let newMentionableImages :=
    filter (λ m, ¬ some_key keyOf (keyOf (IsMentionableImage m)) (mentionables st))
           mentionableImages in
  if decide (length newMentionableImages = 0%nat) then st
  else
    {| mentionables := mentionables st ++ (IsMentionableImage <$> newMentionableImages);
       displayedMentionableKey :=
         (λ m, keyOf (IsMentionableImage m))
           <$> newMentionableImages !! (length newMentionableImages - 1)%nat;
       editor := editor st |}.

(** ** handleMentionableDelete *)

(** The callback of [editorRef.current?.update]: every mention node of the
    snapshot whose key matches is removed from the tree. *)
Definition removeMentionNodes (mentionableKey : string) (es : EditorState)
  : EditorState :=
  foldl (λ tree n,
           if decide (getMentionableKey (getMentionable n) = mentionableKey)
           then remove n tree else tree)
        es (nodesOfType es).

Definition handleMentionableDelete (st : State) (mentionable : Mentionable)
  : State :=
  let mentionableKey := keyOf mentionable in
  {| mentionables := filter (λ m, keyOf m ≠ mentionableKey) (mentionables st);
     displayedMentionableKey := displayedMentionableKey st;
     editor := removeMentionNodes mentionableKey <$> editor st |}.

(** ** The reconciler as the specification words it

    Step 1 marks a key for removal for each 'destroyed' mutation whose key
    no live node shares; step 2 stages a 'created' mutation unless its key
    is in the current list or already staged. *)

(** The keys of the mention nodes currently alive in the editor. *)
Definition liveKeys (st : State) : list string :=
  match editor st with
  | Some es => (λ n, getMentionableKey (getMentionable n)) <$> nodesOfType es
  | None => []
  end.

Definition spec_removalKeys (st : State) (mutations : NodeMutations)
  : list string :=
  omap (λ mu,
          let k := getMentionableKey (getMentionable (node mu)) in
          if decide (mutation mu = destroyed ∧ (k ∉ liveKeys st))
          then Some k else None)
       mutations.

Fixpoint spec_stageAdditions (current : list Mentionable)
    (staged : list SerializedMentionable) (mutations : NodeMutations)
  : list SerializedMentionable :=
  match mutations with
  | [] => staged
  | mu :: rest =>
      let s := getMentionable (node mu) in
      if decide (mutation mu = created
                 ∧ (getMentionableKey s ∉ keyOf <$> current)
                 ∧ (getMentionableKey s ∉ getMentionableKey <$> staged))
      then spec_stageAdditions current (staged ++ [s]) rest
      else spec_stageAdditions current staged rest
  end.

Definition spec_stagedAdditions (st : State) (mutations : NodeMutations)
  : list SerializedMentionable :=
  spec_stageAdditions (mentionables st) [] mutations.

(** ** The badge's [onClick] *)

(** A call of the external [openMarkdownFile(app, path, line)]. *)
Record OpenMarkdownFile := mkOpen { openPath : string; openLine : option Z }.

(** [setDisplayedMentionableKey(key)] *)
Definition setDisplayedMentionableKey (st : State) (key : string) : State :=
  {| mentionables := mentionables st;
     displayedMentionableKey := Some key;
     editor := editor st |}.

Definition badgeOnClick (st : State) (m : Mentionable)
  : State * option OpenMarkdownFile :=
  let mentionableKey := keyOf m in
  match (if isFileLike m then mentionable_file m else None) with
  | Some file =>
      if bool_decide (Some mentionableKey = displayedMentionableKey st)
      then (st, Some {| openPath := path file;
                        openLine := match m with
                                    | MentionableBlock _ _ startLine _ => Some startLine
                                    | _ => None
                                    end |})
      else (setDisplayedMentionableKey st mentionableKey, None)
  | None => (setDisplayedMentionableKey st mentionableKey, None)
  end.

(** ** MentionableContentPreview *)

(** [readTFileContent(file, app.vault)] of [utils/obsidian], a parameter;
    [None] when the read rejects. *)
Variable readTFileContent : TFile → option string.

(** [mentionables.find(...) ?? null] *)
Definition displayedMentionable (displayedKey : option string)
    (ms : list Mentionable) : option Mentionable :=
  snd <$> list_find (λ m, Some (keyOf m) = displayedKey) ms.

(** The [enabled] flag of the query. *)
Definition queryEnabled (d : option Mentionable) : bool :=
  match d with
  | Some m => isFileLike m
  | None => false
  end.

(** The [queryFn]; [None] stands for a [null] result and for a rejected
    read, neither of which renders anything. *)
Definition queryFn (d : option Mentionable) : option string :=
  match d with
  | None => None
  | Some (MentionableFile file) => readTFileContent file
  | Some (MentionableCurrentFile file) => file ≫= readTFileContent
  | Some (MentionableBlock _ file startLine endLine) =>
      fileContent ← readTFileContent file;
      Some (join_lines (js_slice (startLine - 1) endLine (split_lines fileContent)))
  | Some _ => None
  end.

(** What the preview pane renders. *)
Inductive PreviewView :=
| MarkdownPreview (content : string)
| ImagePreview (src alt : string)
| NoPreview.

Definition MentionableContentPreview (displayedKey : option string)
    (ms : list Mentionable) : PreviewView :=
  let d := displayedMentionable displayedKey ms in
  let displayFileContent := if queryEnabled d then queryFn d else None in
  match displayFileContent with
  | Some (String c rest) => MarkdownPreview (String c rest)
  | _ =>
      match d with
      | Some (IsMentionableImage img) => ImagePreview (data img) (name img)
      | _ => NoPreview
      end
  end.

End Reconciler.

(** ** Further parts of the component *)

Section Component.

Context {SerializedMentionable File : Type}.
Variable getMentionableKey : SerializedMentionable → string.
Variable serializeMentionable : Mentionable → SerializedMentionable.

(** [fileToMentionableImage(image)] of [utils/llm/image], a parameter;
    [None] when the promise rejects. *)
Variable fileToMentionableImage : File → option MentionableImage.

(** The [isFocused] prop of a badge. *)
Definition isFocused (st : @State SerializedMentionable) (m : Mentionable) : bool :=
  bool_decide (Some (keyOf getMentionableKey serializeMentionable m)
               = displayedMentionableKey st).

(** [handleUploadImages]: [Promise.all] over the conversions, then
    [handleCreateImageMentionables]; a rejected conversion rejects the
    whole and the handler is never reached. *)
Definition handleUploadImages (st : @State SerializedMentionable)
    (images : list File) : State :=
  match mapM fileToMentionableImage images with
  | Some mentionableImages =>
      handleCreateImageMentionables getMentionableKey serializeMentionable
        st mentionableImages
  | None => st
  end.

End Component.

(** ** A model of the imported mentionable helpers *)

Module Helpers.

(** Modelled from the spec: the serialized mentionable of
    [types/mentionable], which is not part of this file.  Serialization
    strips runtime-only fields (live file handles) to a stable descriptor:
    a file handle becomes its path. *)
Inductive SerializedMentionable :=
| SerializedFile (file : string)
| SerializedCurrentFile (file : option string)
| SerializedBlock (content file : string) (startLine endLine : Z)
| SerializedImage (name data : string)
| SerializedOther (descriptor : string).

(** Modelled from the spec: [serializeMentionable] of
    [utils/chat/mentionable]. *)
Definition serializeMentionable (m : Mentionable) : SerializedMentionable :=
  match m with
  | MentionableFile f => SerializedFile (path f)
  | MentionableCurrentFile f => SerializedCurrentFile (path <$> f)
  | MentionableBlock c f s e => SerializedBlock c (path f) s e
  | IsMentionableImage i => SerializedImage (name i) (data i)
  | MentionableOther d => SerializedOther d
  end.

(** Modelled from the spec: [getMentionableKey] of [utils/chat/mentionable],
    a deterministic key over the serialized form. *)
Definition getMentionableKey (s : SerializedMentionable) : string :=
  match s with
  | SerializedFile f => "file:" +:+ f
  | SerializedCurrentFile f => "current-file:" +:+ default EmptyString f
  | SerializedBlock c f s e =>
      "block:" +:+ f +:+ ":" +:+ pretty s +:+ ":" +:+ pretty e +:+ ":" +:+ c
  | SerializedImage n d => "image:" +:+ n +:+ ":" +:+ d
  | SerializedOther d => "other:" +:+ d
  end.

(** Modelled from the spec: [deserializeMentionable] of
    [utils/chat/mentionable] applied to an [app] whose vault holds the files
    [vault]; a path the vault does not hold fails to deserialize. *)
Definition deserializeMentionable (vault : list string) (s : SerializedMentionable)
  : option Mentionable :=
  match s with
  | SerializedFile f =>
      if decide (f ∈ vault) then Some (MentionableFile (mkTFile f)) else None
  | SerializedCurrentFile None => Some (MentionableCurrentFile None)
  | SerializedCurrentFile (Some f) =>
      if decide (f ∈ vault) then Some (MentionableCurrentFile (Some (mkTFile f)))
      else None
  | SerializedBlock c f s e =>
      if decide (f ∈ vault) then Some (MentionableBlock c (mkTFile f) s e) else None
  | SerializedImage n d => Some (IsMentionableImage (mkImage n d))
  | SerializedOther d => Some (MentionableOther d)
  end.

(** Modelled from the spec: [readTFileContent] over a vault given as an
    association list from paths to file text. *)
Definition readTFileContent (files : list (string * string)) (f : TFile)
  : option string :=
  (λ r : nat * (string * string), r.2.2) <$> list_find (λ e, e.1 = path f) files.

End Helpers.

(** ** Concrete scenarios over the helper model *)

Module Scenario.

Definition vault : list string := ["A.md"; "B.md"; "X.md"].

Abbreviation State := (@State Helpers.SerializedMentionable).
Abbreviation EditorState := (@EditorState Helpers.SerializedMentionable).
Abbreviation NodeMutations := (@NodeMutations Helpers.SerializedMentionable).
Abbreviation keyOf := (keyOf Helpers.getMentionableKey Helpers.serializeMentionable).
Abbreviation handleMentionNodeMutation :=
  (handleMentionNodeMutation Helpers.getMentionableKey Helpers.serializeMentionable
     (Helpers.deserializeMentionable vault)).
Abbreviation handleCreateImageMentionables :=
  (handleCreateImageMentionables Helpers.getMentionableKey
     Helpers.serializeMentionable).
Abbreviation handleMentionableDelete :=
  (handleMentionableDelete Helpers.getMentionableKey Helpers.serializeMentionable).
Abbreviation badgeOnClick :=
  (badgeOnClick Helpers.getMentionableKey Helpers.serializeMentionable).

Definition fileA : Mentionable := MentionableFile (mkTFile "A.md").
Definition fileB : Mentionable := MentionableFile (mkTFile "B.md").
Definition blockX : Mentionable := MentionableBlock "l3" (mkTFile "X.md") 3 5.
Definition noCurrentFile : Mentionable := MentionableCurrentFile None.
Definition photo : MentionableImage := mkImage "photo.png" "iVBORw0KGgo".

Definition nodeA1 := mkMentionNode "1" (Helpers.SerializedFile "A.md").
Definition nodeA2 := mkMentionNode "2" (Helpers.SerializedFile "A.md").
Definition nodeB := mkMentionNode "3" (Helpers.SerializedFile "B.md").
Definition nodeGone := mkMentionNode "4" (Helpers.SerializedFile "gone.md").

(** One of two nodes for A.md is destroyed, the other is still in the
    editor. *)
Definition treeWithA : EditorState := [OtherNode "0"; IsMentionNode nodeA2].
Definition stateWithA : State := mkState [fileA] None (Some treeWithA).
Definition retypeA : NodeMutations :=
  [mkMutation destroyed nodeA1; mkMutation created nodeA2].

(** A node for B.md is created next to the listed A.md. *)
Definition createB : NodeMutations := [mkMutation created nodeB].

(** A node is created for a file the vault does not hold. *)
Definition createGone : NodeMutations := [mkMutation created nodeGone].

(** Two files listed, A.md mentioned twice in the text. *)
Definition treeAB : EditorState :=
  [OtherNode "0"; IsMentionNode nodeA1; IsMentionNode nodeB; IsMentionNode nodeA2].
Definition stateAB : State := mkState [fileA; fileB] None (Some treeAB).

Definition statePhoto : State := mkState [IsMentionableImage photo] None None.

(** The block is listed and displayed. *)
Definition stateBlockShown : State :=
  mkState [fileA; blockX] (Some (keyOf blockX)) None.

(** The current-file mentionable without an active file is displayed. *)
Definition stateNoCurrentFile : State :=
  mkState [noCurrentFile] (Some (keyOf noCurrentFile)) None.

(** A six-line note. *)
Definition textX : string := join_lines ["l1"; "l2"; "l3"; "l4"; "l5"; "l6"].
Definition files : list (string * string) := [("X.md", textX)].

(** A file and a block of another file are listed; the block's only node
    is destroyed while a node for the file lives on. *)
Definition nodeBlockX :=
  mkMentionNode "5" (Helpers.SerializedBlock "l3" "X.md" 3 5).
Definition stateFileAndBlock : State :=
  mkState [fileA; blockX] None (Some [OtherNode "0"; IsMentionNode nodeA1]).
Definition destroyBlock : NodeMutations := [mkMutation destroyed nodeBlockX].

(** Image files by name; the one called broken.png cannot be decoded. *)
Definition decodeImage (fileName : string) : option MentionableImage :=
  if decide (fileName = "broken.png") then None
  else Some (mkImage fileName "iVBORw0KGgo").

Abbreviation handleUploadImages :=
  (handleUploadImages Helpers.getMentionableKey Helpers.serializeMentionable
     decodeImage).
Abbreviation isFocused :=
  (isFocused Helpers.getMentionableKey Helpers.serializeMentionable).
Abbreviation displayedMentionable :=
  (displayedMentionable Helpers.getMentionableKey Helpers.serializeMentionable).
Abbreviation MentionableContentPreview :=
  (MentionableContentPreview Helpers.getMentionableKey Helpers.serializeMentionable
     (Helpers.readTFileContent files)).

End Scenario.

(** * Properties *)

(** ** Generic facts *)

Lemma some_key_true {A} (key : A → string) k l :
  some_key key k l = true ↔ k ∈ key <$> l.
Proof.
  unfold some_key. rewrite bool_decide_eq_true, Exists_exists, list_elem_of_fmap.
  split; intros (x & H1 & H2); eauto.
Qed.

Lemma some_key_false {A} (key : A → string) k l :
  some_key key k l = false ↔ k ∉ key <$> l.
Proof.
  unfold some_key. rewrite bool_decide_eq_false, Exists_exists, list_elem_of_fmap.
  split; intros H (x & H1 & H2); apply H; eauto.
Qed.

Lemma last_index_lookup {A} (l : list A) :
  l !! (length l - 1)%nat = last l.
Proof. rewrite last_lookup. f_equal. lia. Qed.

Lemma filter_iff_on {A} (P1 P2 : A → Prop)
    `{!∀ x, Decision (P1 x), !∀ x, Decision (P2 x)} (l : list A) :
  (∀ x, x ∈ l → P1 x ↔ P2 x) → filter P1 l = filter P2 l.
Proof.
  induction l as [|a l IH]; intros Hiff; [done|].
  assert (filter P1 l = filter P2 l) as IH'.
  { apply IH. intros x Hx. apply Hiff. by right. }
  destruct (decide (P1 a)) as [Ha|Ha].
  - rewrite !filter_cons_True; [by rewrite IH'| |done].
    apply Hiff; [left|done].
  - rewrite !filter_cons_False; [done| |done].
    intros Hb. apply Ha, Hiff; [left|done].
Qed.

Lemma filter_none {A} (P : A → Prop) `{!∀ x, Decision (P x)} (l : list A) :
  (∀ x, x ∈ l → ¬ P x) → filter P l = [].
Proof.
  induction l as [|a l IH]; intros Hno; [done|].
  rewrite filter_cons_False by (apply Hno; left).
  apply IH. intros x Hx. apply Hno. by right.
Qed.

Lemma filter_all {A} (P : A → Prop) `{!∀ x, Decision (P x)} (l : list A) :
  (∀ x, x ∈ l → P x) → filter P l = l.
Proof.
  induction l as [|a l IH]; intros Hall; [done|].
  rewrite filter_cons_True by (apply Hall; left). f_equal. apply IH.
  intros x Hx. apply Hall. by right.
Qed.

Lemma filter_filter_iff {A} (P Q R : A → Prop)
    `{!∀ x, Decision (P x), !∀ x, Decision (Q x), !∀ x, Decision (R x)}
    (l : list A) :
  (∀ x, R x ↔ P x ∧ Q x) → filter P (filter Q l) = filter R l.
Proof.
  intros Hiff. rewrite list_filter_filter. apply list_filter_iff.
  intros x. by rewrite Hiff.
Qed.

Section ReconcilerProperties.

Context {SerializedMentionable : Type}.
Variable getMentionableKey : SerializedMentionable → string.
Variable serializeMentionable : Mentionable → SerializedMentionable.
Variable deserializeMentionable : SerializedMentionable → option Mentionable.

#[local] Abbreviation State := (@State SerializedMentionable).
#[local] Abbreviation EditorState := (@EditorState SerializedMentionable).
#[local] Abbreviation MentionNode := (@MentionNode SerializedMentionable).
#[local] Abbreviation NodeMutations := (@NodeMutations SerializedMentionable).
#[local] Abbreviation keyOf := (keyOf getMentionableKey serializeMentionable).
#[local] Abbreviation nodeKeyOf := (λ n, getMentionableKey (getMentionable n)).
#[local] Abbreviation liveKeys := (liveKeys getMentionableKey).
#[local] Abbreviation nodeWithSameMentionable :=
  (nodeWithSameMentionable getMentionableKey).
#[local] Abbreviation mutationStep :=
  (mutationStep getMentionableKey serializeMentionable).
#[local] Abbreviation collectMutations :=
  (collectMutations getMentionableKey serializeMentionable).
#[local] Abbreviation handleMentionNodeMutation :=
  (handleMentionNodeMutation getMentionableKey serializeMentionable
     deserializeMentionable).
#[local] Abbreviation handleCreateImageMentionables :=
  (handleCreateImageMentionables getMentionableKey serializeMentionable).
#[local] Abbreviation handleMentionableDelete :=
  (handleMentionableDelete getMentionableKey serializeMentionable).
#[local] Abbreviation removeMentionNodes := (removeMentionNodes getMentionableKey).
#[local] Abbreviation badgeOnClick :=
  (badgeOnClick getMentionableKey serializeMentionable).
#[local] Abbreviation spec_removalKeys := (spec_removalKeys getMentionableKey).
#[local] Abbreviation spec_stageAdditions :=
  (spec_stageAdditions getMentionableKey serializeMentionable).
#[local] Abbreviation spec_stagedAdditions :=
  (spec_stagedAdditions getMentionableKey serializeMentionable).

(** The lookup of the 'destroyed' branch finds a node exactly when some live
    node carries the key. *)
Lemma nodeWithSameMentionable_None (st : State) k :
  nodeWithSameMentionable st k = None ↔ k ∉ liveKeys st.
Proof.
  unfold nodeWithSameMentionable, liveKeys.
  destruct (editor st) as [es|]; simpl.
  - rewrite fmap_None, list_find_None, Forall_forall, list_elem_of_fmap.
    split.
    + intros H (n & -> & Hn). by apply (H n).
    + intros H n Hn Hk. apply H. eauto.
  - split; [intros _; apply not_elem_of_nil | done].
Qed.

(** The single pass over the batch computes the two lists of the
    specification's steps 1 and 2. *)
Lemma foldl_mutationStep (st : State) (mutations : NodeMutations) dk ad :
  foldl (mutationStep st) (dk, ad) mutations
  = (dk ++ spec_removalKeys st mutations,
     spec_stageAdditions (mentionables st) ad mutations).
Proof.
  revert dk ad. induction mutations as [|mu rest IH]; intros dk ad; simpl.
  - by rewrite app_nil_r.
  - unfold spec_removalKeys; simpl.
    destruct (mutation mu) eqn:Hmu; simpl.
    + (* created *)
      fold (spec_removalKeys st rest).
      destruct (some_key _ _ (mentionables st)) eqn:H1; simpl.
      * apply some_key_true in H1.
        rewrite decide_False by (intros (_ & ? & _); done). apply IH.
      * apply some_key_false in H1.
        destruct (some_key _ _ ad) eqn:H2.
        -- apply some_key_true in H2.
           rewrite decide_False by (intros (_ & _ & ?); done). apply IH.
        -- apply some_key_false in H2. rewrite decide_True by done. apply IH.
    + (* updated *)
      fold (spec_removalKeys st rest). apply IH.
    + (* destroyed *)
      fold (spec_removalKeys st rest).
      destruct (nodeWithSameMentionable st _) eqn:Hn.
      * rewrite decide_False; [apply IH|].
        intros [_ Hk]. apply nodeWithSameMentionable_None in Hk. congruence.
      * rewrite decide_True by (split; [done | by apply nodeWithSameMentionable_None]).
        simpl. rewrite IH. by rewrite <- app_assoc.
Qed.

Lemma collectMutations_spec (st : State) (mutations : NodeMutations) :
  collectMutations st mutations
  = (spec_removalKeys st mutations, spec_stagedAdditions st mutations).
Proof. unfold collectMutations. by rewrite foldl_mutationStep. Qed.

(** The state after a batch, over the two lists of the specification. *)
Lemma handleMentionNodeMutation_unfold (st : State) (mutations : NodeMutations) :
  handleMentionNodeMutation st mutations
  = {| mentionables :=
         filter (λ m, keyOf m ∉ spec_removalKeys st mutations) (mentionables st)
         ++ omap deserializeMentionable (spec_stagedAdditions st mutations);
       displayedMentionableKey :=
         match last (spec_stagedAdditions st mutations) with
         | Some s => Some (getMentionableKey s)
         | None => displayedMentionableKey st
         end;
       editor := editor st |}.
Proof.
  unfold handleMentionNodeMutation. rewrite collectMutations_spec.
  f_equal. rewrite last_index_lookup.
  destruct (spec_stagedAdditions st mutations) as [|s l] eqn:E using rev_ind.
  - done.
  - rewrite length_app, last_snoc. simpl. by rewrite decide_True by lia.
Qed.

(** A key marked for removal is carried by no live mention node. *)
Lemma spec_removalKeys_not_live (st : State) (mutations : NodeMutations) k :
  k ∈ spec_removalKeys st mutations → k ∉ liveKeys st.
Proof.
  unfold spec_removalKeys. rewrite list_elem_of_omap.
  intros (mu & _ & Hmu). case_decide as Hd; [|done].
  destruct Hd as [_ Hd]. by simplify_eq.
Qed.

(** A key is marked for removal exactly by a 'destroyed' mutation whose key
    no live node shares. *)
Lemma elem_of_spec_removalKeys (st : State) (mutations : NodeMutations) k :
  k ∈ spec_removalKeys st mutations
  ↔ ∃ mu, mu ∈ mutations ∧ mutation mu = destroyed
          ∧ nodeKeyOf (node mu) = k ∧ k ∉ liveKeys st.
Proof.
  unfold spec_removalKeys. rewrite list_elem_of_omap. split.
  - intros (mu & Hin & Hmu). case_decide as Hd; [|done].
    destruct Hd as [Hd1 Hd2]. simplify_eq. eauto.
  - intros (mu & Hin & Hd & <- & Hl). exists mu. split; [done|].
    by rewrite decide_True.
Qed.

(** Staging keeps the staged keys pairwise distinct and disjoint from the
    keys of the current list. *)
Lemma spec_stageAdditions_fresh current (mutations : NodeMutations) ad :
  NoDup (getMentionableKey <$> ad) →
  (∀ k, k ∈ getMentionableKey <$> ad → k ∉ keyOf <$> current) →
  NoDup (getMentionableKey <$> spec_stageAdditions current ad mutations)
  ∧ ∀ k, k ∈ getMentionableKey <$> spec_stageAdditions current ad mutations →
         k ∉ keyOf <$> current.
Proof.
  revert ad. induction mutations as [|mu rest IH]; intros ad Hnd Hfr; simpl.
  - done.
  - case_decide as Hd; [|by apply IH].
    destruct Hd as (_ & Hcur & Hst). apply IH.
    + rewrite fmap_app. simpl. apply NoDup_app. split_and!; [done| |apply NoDup_singleton].
      intros k Hk ->%list_elem_of_singleton. done.
    + intros k. rewrite fmap_app, elem_of_app. simpl.
      intros [Hk| ->%list_elem_of_singleton]; [by apply Hfr | done].
Qed.

Lemma spec_stagedAdditions_fresh (st : State) (mutations : NodeMutations) :
  NoDup (getMentionableKey <$> spec_stagedAdditions st mutations)
  ∧ ∀ k, k ∈ getMentionableKey <$> spec_stagedAdditions st mutations →
         k ∉ keyOf <$> mentionables st.
Proof.
  apply spec_stageAdditions_fresh; [apply NoDup_nil_2 | by intros k ?%elem_of_nil].
Qed.

(** C1.  Last reference wins: whatever the batch, a mentionable whose key is
    still carried by a mention node of the current editor state stays in the
    list, so destroying and creating nodes of one key in a batch cannot
    remove it. *)
Theorem last_reference_wins (st : State) (mutations : NodeMutations)
    (es : EditorState) (n : MentionNode) (m : Mentionable) :
  editor st = Some es →
  n ∈ nodesOfType es →
  nodeKeyOf n = keyOf m →
  m ∈ mentionables st →
  m ∈ mentionables (handleMentionNodeMutation st mutations).
Proof.
  intros Hes Hn Hk Hm. rewrite handleMentionNodeMutation_unfold. simpl.
  apply elem_of_app. left. apply list_elem_of_filter. split; [|done].
  intros Hrm%spec_removalKeys_not_live. apply Hrm.
  unfold liveKeys. rewrite Hes, <- Hk.
  apply list_elem_of_fmap. eauto.
Qed.

(** C3.  Result shape and displayed key: the next list is the current list
    without the entries whose key is marked for removal, followed by the
    staged additions that deserialize; if an addition was staged, the key of
    the last one becomes the displayed key.  For a one-entry list and a
    batch creating one node of another key that deserializes, the result is
    the two-entry list with the new key displayed. *)
Theorem reconciler_result_shape (st : State) (mutations : NodeMutations) :
  mentionables (handleMentionNodeMutation st mutations)
  = filter (λ m, keyOf m ∉ spec_removalKeys st mutations) (mentionables st)
    ++ omap deserializeMentionable (spec_stagedAdditions st mutations)
  ∧ displayedMentionableKey (handleMentionNodeMutation st mutations)
    = match last (spec_stagedAdditions st mutations) with
      | Some s => Some (getMentionableKey s)
      | None => displayedMentionableKey st
      end
  ∧ ∀ (a b : Mentionable) (nb : MentionNode) shown ed,
      keyOf a ≠ nodeKeyOf nb →
      deserializeMentionable (getMentionable nb) = Some b →
      handleMentionNodeMutation (mkState [a] shown ed) [mkMutation created nb]
      = mkState [a; b] (Some (nodeKeyOf nb)) ed.
Proof.
  split_and!.
  - by rewrite handleMentionNodeMutation_unfold.
  - by rewrite handleMentionNodeMutation_unfold.
  - intros a b nb shown ed Hne Hb.
    rewrite handleMentionNodeMutation_unfold.
    unfold spec_stagedAdditions, spec_removalKeys. simpl.
    rewrite decide_True.
    + simpl. by rewrite Hb.
    + split_and!; [done| |apply not_elem_of_nil].
      intros Hx%list_elem_of_singleton. congruence.
Qed.

(** C10.  The displayed key outlives a deserialization failure: when the
    last staged addition fails to deserialize, its key is displayed all the
    same, and (deserialization preserving keys) no entry of the resulting
    list carries that key. *)
Theorem displayed_key_outlives_deserialization_failure
    (st : State) (mutations : NodeMutations) (s : SerializedMentionable) :
  last (spec_stagedAdditions st mutations) = Some s →
  deserializeMentionable s = None →
  displayedMentionableKey (handleMentionNodeMutation st mutations)
  = Some (getMentionableKey s)
  ∧ ((∀ s' m, deserializeMentionable s' = Some m → keyOf m = getMentionableKey s') →
     getMentionableKey s
     ∉ keyOf <$> mentionables (handleMentionNodeMutation st mutations)).
Proof.
  intros Hlast Hfail. rewrite handleMentionNodeMutation_unfold. simpl.
  rewrite Hlast. split; [done|]. intros Hround.
  destruct (spec_stagedAdditions_fresh st mutations) as [Hnd Hfr].
  apply last_Some in Hlast as [l' Hl']. rewrite Hl' in *.
  rewrite fmap_app, elem_of_app. intros [Hin|Hin].
  - apply list_elem_of_fmap in Hin as (m & Hk & Hm).
    apply list_elem_of_filter in Hm as [_ Hm].
    apply (Hfr (getMentionableKey s)).
    + rewrite fmap_app, elem_of_app. right. simpl. apply list_elem_of_singleton. done.
    + rewrite Hk. apply list_elem_of_fmap. eauto.
  - apply list_elem_of_fmap in Hin as (m & Hk & Hm).
    apply list_elem_of_omap in Hm as (s' & Hs' & Hds').
    rewrite (Hround _ _ Hds') in Hk.
    apply elem_of_app in Hs' as [Hs'| ->%list_elem_of_singleton]; [|congruence].
    rewrite fmap_app in Hnd. apply NoDup_app in Hnd as (_ & Hdisj & _).
    apply (Hdisj (getMentionableKey s')).
    + apply list_elem_of_fmap. eauto.
    + rewrite <- Hk. simpl. apply list_elem_of_singleton. done.
Qed.

(** *** Image upload *)

Lemma newMentionableImages_filter (st : State) (images : list MentionableImage) :
  filter (λ m, ¬ some_key keyOf (keyOf (IsMentionableImage m)) (mentionables st)) images
  = filter (λ m, keyOf (IsMentionableImage m) ∉ keyOf <$> mentionables st) images.
Proof.
  apply list_filter_iff. intros m.
  rewrite <- some_key_true. rewrite Is_true_true. done.
Qed.

Lemma handleCreateImageMentionables_unfold (st : State) images :
  let fresh :=
    filter (λ m, keyOf (IsMentionableImage m) ∉ keyOf <$> mentionables st) images in
  handleCreateImageMentionables st images
  = match last fresh with
    | None => st
    | Some i =>
        {| mentionables := mentionables st ++ (IsMentionableImage <$> fresh);
           displayedMentionableKey := Some (keyOf (IsMentionableImage i));
           editor := editor st |}
    end.
Proof.
  intros fresh. unfold handleCreateImageMentionables.
  rewrite newMentionableImages_filter. fold fresh.
  rewrite last_index_lookup.
  destruct fresh as [|i l _] using rev_ind; [done|].
  rewrite length_app, last_snoc. simpl. by rewrite decide_False by lia.
Qed.

(** C5.  Idempotent upload: the images appended are exactly the uploaded
    ones whose key the current list lacks, the last of them takes the
    display focus, and when every uploaded key is present already the state
    is left as it was. *)
Theorem idempotent_image_upload (st : State) (images : list MentionableImage) :
  mentionables (handleCreateImageMentionables st images)
  = mentionables st
    ++ (IsMentionableImage
          <$> filter (λ m, keyOf (IsMentionableImage m) ∉ keyOf <$> mentionables st)
                     images)
  ∧ displayedMentionableKey (handleCreateImageMentionables st images)
    = match last (filter (λ m, keyOf (IsMentionableImage m)
                               ∉ keyOf <$> mentionables st) images) with
      | Some i => Some (keyOf (IsMentionableImage i))
      | None => displayedMentionableKey st
      end
  ∧ ((∀ i, i ∈ images → keyOf (IsMentionableImage i) ∈ keyOf <$> mentionables st) →
     handleCreateImageMentionables st images = st).
Proof.
  rewrite handleCreateImageMentionables_unfold.
  split_and!.
  - destruct (filter _ images) as [|i l _] using rev_ind; [by rewrite app_nil_r|].
    by rewrite last_snoc.
  - by destruct (last _).
  - intros Hall.
    assert (filter (λ m, keyOf (IsMentionableImage m) ∉ keyOf <$> mentionables st)
              images = []) as ->; [|done].
    apply filter_none. intros i Hi Hn. by apply Hn, Hall.
Qed.

(** *** Delete *)

Lemma foldl_remove (k : string) (ns : list MentionNode) (tree : EditorState) :
  foldl (λ tree n, if decide (nodeKeyOf n = k) then remove n tree else tree) tree ns
  = filter (λ x, lexicalKey x ∉ nodeKey <$> filter (λ n, nodeKeyOf n = k) ns) tree.
Proof.
  revert tree. induction ns as [|n ns IH]; intros tree; simpl.
  - symmetry. apply filter_all.
    intros x _. apply not_elem_of_nil.
  - rewrite IH. case_decide as Hk.
    + rewrite filter_cons_True by done. unfold remove.
      apply filter_filter_iff. intros x. simpl.
      rewrite not_elem_of_cons. tauto.
    + by rewrite filter_cons_False by done.
Qed.

Lemma elem_of_nodesOfType (es : EditorState) (n : MentionNode) :
  n ∈ nodesOfType es ↔ IsMentionNode n ∈ es.
Proof.
  unfold nodesOfType. rewrite list_elem_of_omap. split.
  - intros ([m|k] & Hin & Heq); by simplify_eq.
  - intros Hin. by exists (IsMentionNode n).
Qed.

(** After the editor update no mention node of the key is left. *)
Lemma removeMentionNodes_spec (k : string) (es : EditorState) (n : MentionNode) :
  n ∈ nodesOfType (removeMentionNodes k es) → nodeKeyOf n ≠ k.
Proof.
  unfold removeMentionNodes. rewrite foldl_remove.
  intros Hn Hk. apply elem_of_nodesOfType, list_elem_of_filter in Hn as [Hn Hin].
  apply Hn. simpl. apply list_elem_of_fmap. exists n. split; [done|].
  apply list_elem_of_filter. split; [done|]. by apply elem_of_nodesOfType.
Qed.

(** C4.  Delete is two-sided: the list keeps exactly the entries of another
    key, in order, and the editor keeps no mention node of the deleted
    key. *)
Theorem delete_is_two_sided (st : State) (d : Mentionable) :
  mentionables (handleMentionableDelete st d)
  = filter (λ m, keyOf m ≠ keyOf d) (mentionables st)
  ∧ ∀ es, editor st = Some es →
      ∃ es', editor (handleMentionableDelete st d) = Some es'
             ∧ ∀ n, n ∈ nodesOfType es' → nodeKeyOf n ≠ keyOf d.
Proof.
  split; [done|]. intros es Hes. simpl. rewrite Hes. simpl.
  eexists. split; [done|]. apply removeMentionNodes_spec.
Qed.

(** *** Key uniqueness *)

(** X27.  A delete keeps the keys of the list pairwise distinct. *)
Lemma delete_preserves_unique_keys (st : State) (d : Mentionable) :
  NoDup (keyOf <$> mentionables st) →
  NoDup (keyOf <$> mentionables (handleMentionableDelete st d)).
Proof.
  simpl. intros Hnd. eapply sublist_NoDup; [exact Hnd|].
  apply fmap_sublist, sublist_filter.
Qed.

Lemma omap_keys_sublist (l : list SerializedMentionable) :
  (∀ s m, deserializeMentionable s = Some m → keyOf m = getMentionableKey s) →
  sublist (keyOf <$> omap deserializeMentionable l) (getMentionableKey <$> l).
Proof.
  intros Hround. induction l as [|s l IH]; simpl; [done|].
  destruct (deserializeMentionable s) as [m|] eqn:Hs; simpl.
  - rewrite (Hround _ _ Hs). by apply sublist_skip.
  - by apply sublist_cons.
Qed.

(** X26.  With a deserialization that preserves keys, a mutation batch
    keeps the keys of the list pairwise distinct. *)
Lemma mutation_preserves_unique_keys (st : State) (mutations : NodeMutations) :
  (∀ s m, deserializeMentionable s = Some m → keyOf m = getMentionableKey s) →
  NoDup (keyOf <$> mentionables st) →
  NoDup (keyOf <$> mentionables (handleMentionNodeMutation st mutations)).
Proof.
  intros Hround Hnd. rewrite handleMentionNodeMutation_unfold. simpl.
  destruct (spec_stagedAdditions_fresh st mutations) as [Hst Hfr].
  pose proof (omap_keys_sublist (spec_stagedAdditions st mutations) Hround) as Hsub.
  rewrite fmap_app. apply NoDup_app. split_and!.
  - eapply sublist_NoDup; [exact Hnd|]. apply fmap_sublist, sublist_filter.
  - intros k Hk Hk'. apply (Hfr k).
    + eapply elem_of_sublist; [exact Hk'|exact Hsub].
    + apply list_elem_of_fmap in Hk as (m & -> & Hm).
      apply list_elem_of_filter in Hm as [_ Hm]. apply list_elem_of_fmap. eauto.
  - eapply sublist_NoDup; [exact Hst|exact Hsub].
Qed.

(** X28.  An upload of images with pairwise distinct keys keeps the keys
    of the list pairwise distinct. *)
Lemma image_upload_preserves_unique_keys (st : State) images :
  NoDup ((λ i, keyOf (IsMentionableImage i)) <$> images) →
  NoDup (keyOf <$> mentionables st) →
  NoDup (keyOf <$> mentionables (handleCreateImageMentionables st images)).
Proof.
  intros Himg Hnd. rewrite handleCreateImageMentionables_unfold.
  destruct (last _) as [i|] eqn:Hl; [|done]. simpl.
  rewrite fmap_app, <- list_fmap_compose. apply NoDup_app. split_and!; [done| |].
  - intros k Hk Hk'. apply list_elem_of_fmap in Hk' as (j & -> & Hj).
    apply list_elem_of_filter in Hj as [Hj _]. done.
  - eapply sublist_NoDup; [exact Himg|]. apply fmap_sublist, sublist_filter.
Qed.

(** C2.  Uploading one image twice in a single call breaks key uniqueness:
    the list was empty, hence duplicate free, and ends with two entries of
    the same key. *)
Theorem duplicate_upload_breaks_key_uniqueness
    (image : MentionableImage) shown (ed : option EditorState) :
  NoDup (keyOf <$> mentionables (mkState [] shown ed))
  ∧ mentionables (handleCreateImageMentionables (mkState [] shown ed) [image; image])
    = [IsMentionableImage image; IsMentionableImage image]
  ∧ ¬ NoDup (keyOf <$> mentionables
               (handleCreateImageMentionables (mkState [] shown ed) [image; image])).
Proof.
  assert (mentionables (handleCreateImageMentionables (mkState [] shown ed) [image; image])
          = [IsMentionableImage image; IsMentionableImage image]) as Heq.
  { by rewrite handleCreateImageMentionables_unfold. }
  split_and!; [apply NoDup_nil_2 | done |].
  rewrite Heq. simpl. intros Hnd. apply NoDup_cons in Hnd as [Hnd _].
  apply Hnd. left.
Qed.

(** *** Badge click *)

(** C7 (amended).  A click on the badge of a file, current-file or block
    mentionable that has a file and is the displayed one opens that file
    (at the block's start line for a block) and leaves the state alone;
    every other click makes the clicked key the displayed key and opens
    nothing. *)
Theorem badge_click_semantics (st : State) (m : Mentionable) :
  (∀ file, isFileLike m = true →
           mentionable_file m = Some file →
           displayedMentionableKey st = Some (keyOf m) →
           badgeOnClick st m
           = (st, Some {| openPath := path file;
                          openLine := match m with
                                      | MentionableBlock _ _ startLine _ => Some startLine
                                      | _ => None
                                      end |}))
  ∧ (¬ (isFileLike m = true ∧ is_Some (mentionable_file m)
        ∧ displayedMentionableKey st = Some (keyOf m)) →
     badgeOnClick st m = (setDisplayedMentionableKey st (keyOf m), None)).
Proof.
  unfold badgeOnClick. split.
  - intros file Hlike Hfile Hshown. rewrite Hlike, Hfile, Hshown.
    by rewrite bool_decide_eq_true_2.
  - intros Hnot. destruct (isFileLike m) eqn:Hlike; [|done].
    destruct (mentionable_file m) as [file|] eqn:Hfile; [|done].
    rewrite bool_decide_eq_false_2; [done|].
    intros Hshown. apply Hnot. split_and!; [done|by eexists|done].
Qed.

End ReconcilerProperties.

(** ** Preview resolver *)

(** Inside the array, [slice(s - 1, e)] is the segment of [e - s + 1]
    elements that starts at index [s - 1]. *)
Lemma js_slice_range {A} (l : list A) (s e : Z) :
  1 ≤ s → s ≤ e → e ≤ Z.of_nat (length l) →
  js_slice (s - 1) e l = take (Z.to_nat (e - s + 1)) (drop (Z.to_nat (s - 1)) l).
Proof.
  intros Hs Hse He. unfold js_slice.
  rewrite !decide_False by lia.
  rewrite !Z.min_l by lia. do 2 f_equal. lia.
Qed.

Lemma js_slice_range_length {A} (l : list A) (s e : Z) :
  1 ≤ s → s ≤ e → e ≤ Z.of_nat (length l) →
  Z.of_nat (length (js_slice (s - 1) e l)) = e - s + 1.
Proof.
  intros Hs Hse He. rewrite js_slice_range by done.
  rewrite length_take, length_drop. lia.
Qed.

Lemma js_slice_range_lookup {A} (l : list A) (s e n : Z) :
  1 ≤ s → s ≤ n → n ≤ e → e ≤ Z.of_nat (length l) →
  js_slice (s - 1) e l !! Z.to_nat (n - s) = l !! Z.to_nat (n - 1)
  ∧ is_Some (l !! Z.to_nat (n - 1)).
Proof.
  intros Hs Hsn Hne He. rewrite js_slice_range by lia.
  rewrite lookup_take_lt by lia. rewrite lookup_drop. split.
  - f_equal. lia.
  - apply lookup_lt_is_Some. lia.
Qed.

Section PreviewProperties.

Variable readTFileContent : TFile → option string.

#[local] Abbreviation queryFn := (queryFn readTFileContent).

(** C6.  Block preview: for a block of 1-indexed lines [s] to [e] that lie
    in the file, the query answers the file's lines [s] to [e] inclusive,
    a slice of [e - s + 1] lines joined with newlines. *)
Theorem block_preview_slice (content : string) (file : TFile) (s e : Z)
    (text : string) :
  readTFileContent file = Some text →
  1 ≤ s → s ≤ e → e ≤ Z.of_nat (length (split_lines text)) →
  queryEnabled (Some (MentionableBlock content file s e)) = true
  ∧ ∃ slice,
      queryFn (Some (MentionableBlock content file s e)) = Some (join_lines slice)
      ∧ Z.of_nat (length slice) = e - s + 1
      ∧ ∀ n, s ≤ n → n ≤ e →
          slice !! Z.to_nat (n - s) = split_lines text !! Z.to_nat (n - 1)
          ∧ is_Some (split_lines text !! Z.to_nat (n - 1)).
Proof.
  intros Hread Hs Hse He. split; [done|].
  exists (js_slice (s - 1) e (split_lines text)). split_and!.
  - simpl. by rewrite Hread.
  - by apply js_slice_range_length.
  - intros n Hsn Hne. by apply js_slice_range_lookup.
Qed.

End PreviewProperties.

(** * Further properties of the component *)

Section ReconcilerCoverage.

Context {SerializedMentionable : Type}.
Variable getMentionableKey : SerializedMentionable → string.
Variable serializeMentionable : Mentionable → SerializedMentionable.
Variable deserializeMentionable : SerializedMentionable → option Mentionable.

#[local] Abbreviation State := (@State SerializedMentionable).
#[local] Abbreviation EditorState := (@EditorState SerializedMentionable).
#[local] Abbreviation MentionNode := (@MentionNode SerializedMentionable).
#[local] Abbreviation NodeMutations := (@NodeMutations SerializedMentionable).
#[local] Abbreviation keyOf := (keyOf getMentionableKey serializeMentionable).
#[local] Abbreviation nodeKeyOf := (λ n, getMentionableKey (getMentionable n)).
#[local] Abbreviation liveKeys := (liveKeys getMentionableKey).
#[local] Abbreviation handleMentionNodeMutation :=
  (handleMentionNodeMutation getMentionableKey serializeMentionable
     deserializeMentionable).
#[local] Abbreviation handleCreateImageMentionables :=
  (handleCreateImageMentionables getMentionableKey serializeMentionable).
#[local] Abbreviation handleMentionableDelete :=
  (handleMentionableDelete getMentionableKey serializeMentionable).
#[local] Abbreviation removeMentionNodes := (removeMentionNodes getMentionableKey).
#[local] Abbreviation badgeOnClick :=
  (badgeOnClick getMentionableKey serializeMentionable).
#[local] Abbreviation isFocused := (isFocused getMentionableKey serializeMentionable).
#[local] Abbreviation spec_removalKeys := (spec_removalKeys getMentionableKey).
#[local] Abbreviation spec_stageAdditions :=
  (spec_stageAdditions getMentionableKey serializeMentionable).
#[local] Abbreviation spec_stagedAdditions :=
  (spec_stagedAdditions getMentionableKey serializeMentionable).

Lemma state_eta (st : State) :
  mkState (mentionables st) (displayedMentionableKey st) (editor st) = st.
Proof. by destruct st. Qed.

Lemma spec_stageAdditions_listed
    (current : list Mentionable) (mutations : NodeMutations) ad :
  (∀ mu, mu ∈ mutations → mutation mu = created →
         nodeKeyOf (node mu) ∈ keyOf <$> current) →
  spec_stageAdditions current ad mutations = ad.
Proof.
  revert ad. induction mutations as [|mu rest IH]; intros ad Hall; simpl; [done|].
  rewrite decide_False.
  - apply IH. intros mu' Hin. apply Hall. by right.
  - intros (Hc & Hnot & _). apply Hnot, Hall; [left|done].
Qed.

(** X1.  A batch is a no-op when every node it reports destroyed still has
    a live twin of the same key and every node it reports created has a
    key that is listed already (so also the empty batch and a batch of
    'updated' mutations). *)
Theorem covered_batch_is_noop (st : State) (mutations : NodeMutations) :
  (∀ mu, mu ∈ mutations →
     (mutation mu = destroyed → nodeKeyOf (node mu) ∈ liveKeys st)
     ∧ (mutation mu = created → nodeKeyOf (node mu) ∈ keyOf <$> mentionables st)) →
  handleMentionNodeMutation st mutations = st.
Proof.
  intros Hall. rewrite handleMentionNodeMutation_unfold.
  assert (spec_removalKeys st mutations = []) as ->.
  { destruct (spec_removalKeys st mutations) as [|k l] eqn:E; [done|].
    assert (k ∈ spec_removalKeys st mutations) as Hk by (rewrite E; left).
    apply elem_of_spec_removalKeys in Hk as (mu & Hin & Hd & <- & Hl).
    destruct (Hall mu Hin) as [Hlive _]. by destruct Hl; apply Hlive. }
  unfold spec_stagedAdditions. rewrite spec_stageAdditions_listed.
  - simpl. rewrite app_nil_r, filter_all; [apply state_eta|].
    intros m _. apply not_elem_of_nil.
  - intros mu Hin Hc. by apply (Hall mu Hin).
Qed.

(** X2.  Last reference gone: with a deserialization that preserves keys,
    a listed key reported destroyed that no live mention node carries (none
    at all while the editor ref is null) is carried by no entry of the next
    list. *)
Theorem unreferenced_destroy_removes
    (st : State) (mutations : NodeMutations) (mu : MentionMutation) :
  (∀ s m, deserializeMentionable s = Some m → keyOf m = getMentionableKey s) →
  mu ∈ mutations →
  mutation mu = destroyed →
  nodeKeyOf (node mu) ∉ liveKeys st →
  nodeKeyOf (node mu) ∈ keyOf <$> mentionables st →
  nodeKeyOf (node mu)
  ∉ keyOf <$> mentionables (handleMentionNodeMutation st mutations).
Proof.
  intros Hround Hin Hd Hlive Hlisted.
  rewrite handleMentionNodeMutation_unfold. simpl.
  rewrite fmap_app, elem_of_app. intros [Hk|Hk].
  - apply list_elem_of_fmap in Hk as (m & Hkm & Hm).
    apply list_elem_of_filter in Hm as [Hm _]. apply Hm.
    apply elem_of_spec_removalKeys. exists mu. by rewrite <- Hkm.
  - destruct (spec_stagedAdditions_fresh getMentionableKey serializeMentionable
                st mutations) as [_ Hfr].
    apply (Hfr (nodeKeyOf (node mu))); [|done].
    eapply elem_of_sublist; [exact Hk|]. by apply omap_keys_sublist.
Qed.

(** X3.  An entry stays listed when no 'destroyed' mutation of the batch
    names its key. *)
Theorem undestroyed_entries_survive
    (st : State) (mutations : NodeMutations) (m : Mentionable) :
  m ∈ mentionables st →
  (∀ mu, mu ∈ mutations → mutation mu = destroyed → nodeKeyOf (node mu) ≠ keyOf m) →
  m ∈ mentionables (handleMentionNodeMutation st mutations).
Proof.
  intros Hm Hno. rewrite handleMentionNodeMutation_unfold. simpl.
  apply elem_of_app. left. apply list_elem_of_filter. split; [|done].
  intros (mu & Hin & Hd & Hk & _)%elem_of_spec_removalKeys.
  by apply (Hno mu).
Qed.

(** *** Delete and upload, composed *)

Lemma delete_of_absent_key (st : State) (d : Mentionable) :
  keyOf d ∉ keyOf <$> mentionables st →
  keyOf d ∉ liveKeys st →
  handleMentionableDelete st d = st.
Proof.
  destruct st as [ms shown ed]. unfold handleMentionableDelete, liveKeys. simpl.
  intros Hlist Hlive. f_equal.
  - apply filter_all. intros m Hm Hk. apply Hlist. rewrite <- Hk.
    apply list_elem_of_fmap. eauto.
  - destruct ed as [es|]; [|done]. simpl. f_equal.
    unfold removeMentionNodes. rewrite foldl_remove.
    rewrite (filter_none (λ n, nodeKeyOf n = keyOf d)).
    + apply filter_all. intros x _. apply not_elem_of_nil.
    + intros n Hn Hk. apply Hlive. rewrite <- Hk. apply list_elem_of_fmap. eauto.
Qed.

(** X4.  Deleting a mentionable whose key is neither listed nor carried by
    a live mention node changes nothing. *)
Theorem delete_absent_is_noop (st : State) (d : Mentionable) :
  keyOf d ∉ keyOf <$> mentionables st →
  keyOf d ∉ liveKeys st →
  handleMentionableDelete st d = st.
Proof. apply delete_of_absent_key. Qed.

(** X5.  Delete is idempotent: after a delete the key is gone from the
    list and from the editor, so deleting again changes nothing. *)
Theorem delete_twice_is_once (st : State) (d : Mentionable) :
  (keyOf d ∉ keyOf <$> mentionables (handleMentionableDelete st d))
  ∧ (keyOf d ∉ liveKeys (handleMentionableDelete st d))
  ∧ handleMentionableDelete (handleMentionableDelete st d) d
    = handleMentionableDelete st d.
Proof.
  assert (keyOf d ∉ keyOf <$> mentionables (handleMentionableDelete st d)) as Hlist.
  { simpl. intros (m & Hk & Hm)%list_elem_of_fmap.
    apply list_elem_of_filter in Hm as [Hm _]. by apply Hm. }
  assert (keyOf d ∉ liveKeys (handleMentionableDelete st d)) as Hlive.
  { unfold liveKeys. simpl. destruct (editor st) as [es|]; simpl;
      [|apply not_elem_of_nil].
    intros (n & Hk & Hn)%list_elem_of_fmap.
    by apply (removeMentionNodes_spec getMentionableKey (keyOf d) es n). }
  split_and!; [done..|]. by apply delete_of_absent_key.
Qed.

(** X6.  Upload is idempotent: uploading the same images a second time
    changes nothing, whether or not the first upload added any. *)
Theorem upload_twice_is_once (st : State) (images : list MentionableImage) :
  handleCreateImageMentionables (handleCreateImageMentionables st images) images
  = handleCreateImageMentionables st images.
Proof.
  rewrite (handleCreateImageMentionables_unfold _ _ st images). simpl.
  destruct (last _) as [i|] eqn:Hlast.
  - rewrite handleCreateImageMentionables_unfold. simpl.
    rewrite (filter_none _ images); [done|].
    intros j Hj Hnot. apply Hnot. rewrite fmap_app, elem_of_app.
    destruct (decide (keyOf (IsMentionableImage j) ∈ keyOf <$> mentionables st))
      as [Hin|Hout]; [by left|right].
    apply list_elem_of_fmap. exists (IsMentionableImage j). split; [done|].
    apply list_elem_of_fmap. exists j. split; [done|].
    by apply list_elem_of_filter.
  - apply last_None in Hlast.
    rewrite handleCreateImageMentionables_unfold. simpl. by rewrite Hlast.
Qed.

(** *** Badges *)

Lemma NoDup_fmap_elem_inj {A B} (f : A → B) (l : list A) (x y : A) :
  NoDup (f <$> l) → x ∈ l → y ∈ l → f x = f y → x = y.
Proof.
  intros Hnd Hx Hy Hf.
  apply list_elem_of_lookup in Hx as [i Hi].
  apply list_elem_of_lookup in Hy as [j Hj].
  assert (i = j) as ->; [|congruence].
  eapply NoDup_lookup; [exact Hnd| |].
  - by rewrite list_lookup_fmap, Hi.
  - rewrite list_lookup_fmap, Hj. simpl. by rewrite Hf.
Qed.

(** X7.  Whatever is displayed, a second click on the badge of a file,
    current-file or block mentionable that has a file opens that file: the
    first click either opened it already or made it the displayed one. *)
Theorem second_click_opens (st : State) (m : Mentionable) (file : TFile) :
  isFileLike m = true →
  mentionable_file m = Some file →
  (badgeOnClick (badgeOnClick st m).1 m).2
  = Some {| openPath := path file;
            openLine := match m with
                        | MentionableBlock _ _ startLine _ => Some startLine
                        | _ => None
                        end |}.
Proof.
  intros Hlike Hfile. unfold badgeOnClick. rewrite Hlike, Hfile.
  destruct (decide (Some (keyOf m) = displayedMentionableKey st)) as [Hshown|Hshown].
  - rewrite (bool_decide_eq_true_2 (Some (keyOf m) = displayedMentionableKey st))
      by done.
    simpl. by rewrite bool_decide_eq_true_2.
  - rewrite (bool_decide_eq_false_2 (Some (keyOf m) = displayedMentionableKey st))
      by done.
    simpl. by rewrite bool_decide_eq_true_2.
Qed.

(** X8.  With pairwise distinct keys in the list at most one badge is
    focused. *)
Theorem at_most_one_badge_focused (st : State) (m1 m2 : Mentionable) :
  NoDup (keyOf <$> mentionables st) →
  m1 ∈ mentionables st →
  m2 ∈ mentionables st →
  isFocused st m1 = true →
  isFocused st m2 = true →
  m1 = m2.
Proof.
  intros Hnd H1 H2 Hf1%bool_decide_eq_true Hf2%bool_decide_eq_true.
  apply (NoDup_fmap_elem_inj keyOf (mentionables st)); [done..|].
  rewrite <- Hf2 in Hf1. by injection Hf1.
Qed.

(** *** What no handler does *)

(** X19.  With a deserialization that preserves keys, a batch never
    reorders or duplicates what it keeps: the next list is a sublist of the
    current one, in its order, followed by additions whose keys the current
    list lacks. *)
Theorem mutation_result_is_ordered_extension
    (st : State) (mutations : NodeMutations) :
  (∀ s m, deserializeMentionable s = Some m → keyOf m = getMentionableKey s) →
  ∃ kept added,
    mentionables (handleMentionNodeMutation st mutations) = kept ++ added
    ∧ kept `sublist_of` mentionables st
    ∧ ∀ m, m ∈ added → keyOf m ∉ keyOf <$> mentionables st.
Proof.
  intros Hround. rewrite handleMentionNodeMutation_unfold. simpl.
  eexists _, _. split_and!; [done|apply sublist_filter|].
  intros m Hm.
  destruct (spec_stagedAdditions_fresh getMentionableKey serializeMentionable
              st mutations) as [_ Hfr].
  apply Hfr. eapply elem_of_sublist; [|by apply omap_keys_sublist].
  apply list_elem_of_fmap. eauto.
Qed.

(** X20.  No handler clears the displayed key: once a key is displayed,
    a mutation batch, an image upload, a delete and a badge click all leave
    some key displayed (a delete leaves the very same key, also when it is
    the deleted one). *)
Theorem displayed_key_is_never_cleared (st : State) :
  is_Some (displayedMentionableKey st) →
  (∀ mutations, is_Some (displayedMentionableKey
                           (handleMentionNodeMutation st mutations)))
  ∧ (∀ images, is_Some (displayedMentionableKey
                          (handleCreateImageMentionables st images)))
  ∧ (∀ d, displayedMentionableKey (handleMentionableDelete st d)
          = displayedMentionableKey st)
  ∧ (∀ m, is_Some (displayedMentionableKey (badgeOnClick st m).1)).
Proof.
  intros Hshown. split_and!.
  - intros mutations. rewrite handleMentionNodeMutation_unfold. simpl.
    by destruct (last _).
  - intros images. rewrite handleCreateImageMentionables_unfold.
    by destruct (last _).
  - done.
  - intros m. unfold badgeOnClick.
    destruct (if isFileLike m then mentionable_file m else None); [|done].
    by case_bool_decide.
Qed.

End ReconcilerCoverage.

(** ** Lines of a file *)

Lemma split_lines_nonempty (s : string) : split_lines s ≠ [].
Proof.
  destruct s as [|c rest]; simpl; [done|].
  case_decide; [done|]. by destruct (split_lines rest).
Qed.

Lemma join_lines_cons (l l' : string) (ls : list string) :
  join_lines (l :: l' :: ls) = l +:+ String newline (join_lines (l' :: ls)).
Proof. done. Qed.

(** X9.  Splitting a text on newlines and joining the lines with newlines
    gives the text back. *)
Theorem join_split_lines (s : string) : join_lines (split_lines s) = s.
Proof.
  induction s as [|c rest IH]; [done|]. simpl.
  pose proof (split_lines_nonempty rest) as Hne.
  destruct (split_lines rest) as [|l ls]; [done|].
  case_decide as Hc.
  - rewrite join_lines_cons, IH. simpl. by rewrite Hc.
  - destruct ls as [|l' ls].
    + simpl in *. by rewrite IH.
    + rewrite join_lines_cons. rewrite join_lines_cons in IH.
      by rewrite <- IH.
Qed.

(** With a start line of at least 1 and a non-negative end line,
    [slice(s - 1, e)] takes up to [e - s + 1] elements from index [s - 1]
    on, stopping where the array ends. *)
Lemma js_slice_clamped {A} (l : list A) (s e : Z) :
  1 ≤ s → 0 ≤ e →
  js_slice (s - 1) e l = take (Z.to_nat (e - s + 1)) (drop (Z.to_nat (s - 1)) l).
Proof.
  intros Hs He. unfold js_slice. rewrite !decide_False by lia.
  destruct (decide (s - 1 ≤ Z.of_nat (length l))) as [Hin|Hout].
  - rewrite (Z.min_l (s - 1)) by lia.
    destruct (decide (e ≤ Z.of_nat (length l))) as [Hein|Heout].
    + rewrite Z.min_l by lia. do 2 f_equal. lia.
    + rewrite Z.min_r by lia.
      rewrite !take_ge; [done|rewrite length_drop; lia..].
  - rewrite (Z.min_r (s - 1)) by lia.
    rewrite !(drop_ge l) by lia. by rewrite !take_nil.
Qed.

Lemma js_slice_whole {A} (l : list A) (e : Z) :
  Z.of_nat (length l) ≤ e → js_slice (1 - 1) e l = l.
Proof.
  intros He. rewrite js_slice_clamped by lia. simpl.
  rewrite drop_0. apply take_ge. lia.
Qed.

Lemma js_slice_last {A} (l : list A) (x : A) (e : Z) :
  last l = Some x → Z.of_nat (length l) ≤ e → js_slice (0 - 1) e l = [x].
Proof.
  intros [l' ->]%last_Some He. unfold js_slice.
  rewrite length_app in *. simpl length in *.
  repeat case_decide; try lia.
  rewrite Z.max_l, Z.min_r by lia.
  replace (Z.to_nat (Z.of_nat (length l' + 1) + (0 - 1))) with (length l') by lia.
  rewrite drop_app_length. apply take_ge. simpl. lia.
Qed.

Lemma join_lines_slice_of_empty (a b : Z) :
  join_lines (js_slice a b [EmptyString]) = EmptyString.
Proof.
  assert (∀ n k, join_lines (take n (drop k [EmptyString])) = EmptyString) as Hany.
  { intros n k. by destruct k as [|[|k]], n as [|[|n]]. }
  unfold js_slice. apply Hany.
Qed.

Section PreviewCoverage.

Context {SerializedMentionable : Type}.
Variable getMentionableKey : SerializedMentionable → string.
Variable serializeMentionable : Mentionable → SerializedMentionable.
Variable readTFileContent : TFile → option string.

#[local] Abbreviation State := (@State SerializedMentionable).
#[local] Abbreviation keyOf := (keyOf getMentionableKey serializeMentionable).
#[local] Abbreviation queryFn := (queryFn readTFileContent).
#[local] Abbreviation displayedMentionable :=
  (displayedMentionable getMentionableKey serializeMentionable).
#[local] Abbreviation MentionableContentPreview :=
  (MentionableContentPreview getMentionableKey serializeMentionable
     readTFileContent).
#[local] Abbreviation handleCreateImageMentionables :=
  (handleCreateImageMentionables getMentionableKey serializeMentionable).
#[local] Abbreviation handleMentionableDelete :=
  (handleMentionableDelete getMentionableKey serializeMentionable).

(** X10.  A block from line 1 to the last line, or beyond it, previews
    the whole file text. *)
Theorem whole_file_block (content : string) (file : TFile) (e : Z) (text : string) :
  readTFileContent file = Some text →
  Z.of_nat (length (split_lines text)) ≤ e →
  queryFn (Some (MentionableBlock content file 1 e)) = Some text.
Proof.
  intros Hread He. simpl. rewrite Hread. simpl.
  by rewrite js_slice_whole, join_split_lines.
Qed.

(** X11.  In general the block query stops at the end of the file: for a
    start line of at least 1 and a non-negative end line it answers at most
    [e - s + 1] lines from line [s] on, as many as the file still has. *)
Theorem block_preview_clamped (content : string) (file : TFile) (s e : Z)
    (text : string) :
  readTFileContent file = Some text →
  1 ≤ s → 0 ≤ e →
  queryFn (Some (MentionableBlock content file s e))
  = Some (join_lines (take (Z.to_nat (e - s + 1))
                           (drop (Z.to_nat (s - 1)) (split_lines text)))).
Proof.
  intros Hread Hs He. simpl. rewrite Hread. simpl.
  by rewrite js_slice_clamped.
Qed.

(** X12.  A block whose start line is 0 does not start at the top: with an
    end line at or past the end of the file the query answers the last line
    only. *)
Theorem block_from_line_zero (content : string) (file : TFile) (e : Z)
    (text : string) :
  readTFileContent file = Some text →
  Z.of_nat (length (split_lines text)) ≤ e →
  ∃ lastLine, last (split_lines text) = Some lastLine
              ∧ queryFn (Some (MentionableBlock content file 0 e)) = Some lastLine.
Proof.
  intros Hread He.
  destruct (last (split_lines text)) as [x|] eqn:Hlast.
  - exists x. split; [done|]. simpl. rewrite Hread. simpl.
    by rewrite (js_slice_last _ x).
  - apply last_None in Hlast. by apply split_lines_nonempty in Hlast.
Qed.

Lemma displayedMentionable_absent (shown : option string) (ms : list Mentionable) :
  (∀ k, shown = Some k → k ∉ keyOf <$> ms) →
  displayedMentionable shown ms = None.
Proof.
  intros Habs. unfold displayedMentionable.
  apply fmap_None, list_find_None, Forall_forall.
  intros m Hm Hk. apply (Habs (keyOf m)); [done|].
  apply list_elem_of_fmap. eauto.
Qed.

Lemma displayedMentionable_found (ms : list Mentionable) (m : Mentionable) :
  m ∈ ms →
  (∀ x, x ∈ ms → keyOf x = keyOf m → x = m) →
  displayedMentionable (Some (keyOf m)) ms = Some m.
Proof.
  intros Hm Huniq. unfold displayedMentionable.
  destruct (list_find_elem_of (λ x, Some (keyOf x) = Some (keyOf m)) ms m Hm eq_refl)
    as [[i x] Hfind].
  rewrite Hfind. simpl. f_equal.
  apply list_find_Some in Hfind as (Hi & Hk & _).
  apply Huniq; [by eapply list_elem_of_lookup_2 | by injection Hk].
Qed.

Lemma dangling_key_renders_nothing_aux (shown : option string) (ms : list Mentionable) :
  (∀ k, shown = Some k → k ∉ keyOf <$> ms) →
  MentionableContentPreview shown ms = NoPreview.
Proof.
  intros Habs. unfold MentionableContentPreview.
  by rewrite displayedMentionable_absent.
Qed.

(** X13.  A displayed key that no list entry carries (or no displayed key
    at all) renders no preview. *)
Theorem dangling_key_renders_nothing (shown : option string) (ms : list Mentionable) :
  (∀ k, shown = Some k → k ∉ keyOf <$> ms) →
  MentionableContentPreview shown ms = NoPreview.
Proof. apply dangling_key_renders_nothing_aux. Qed.

(** X14.  With pairwise distinct keys, looking up the key of a listed
    mentionable finds that mentionable. *)
Theorem displayed_lookup_round_trip (ms : list Mentionable) (m : Mentionable) :
  NoDup (keyOf <$> ms) →
  m ∈ ms →
  displayedMentionable (Some (keyOf m)) ms = Some m.
Proof.
  intros Hnd Hm. apply displayedMentionable_found; [done|].
  intros x Hx Hk. by apply (NoDup_fmap_elem_inj keyOf ms).
Qed.

(** X15.  A displayed file, current-file or block mentionable whose file is
    missing, cannot be read or is empty renders no preview. *)
Theorem unreadable_file_renders_nothing
    (shown : option string) (ms : list Mentionable) (m : Mentionable) :
  displayedMentionable shown ms = Some m →
  isFileLike m = true →
  (∀ f, mentionable_file m = Some f →
        readTFileContent f = None ∨ readTFileContent f = Some EmptyString) →
  MentionableContentPreview shown ms = NoPreview.
Proof.
  intros Hd Hlike Hread. unfold MentionableContentPreview. rewrite Hd. simpl.
  rewrite Hlike.
  destruct m as [f|[f|]|c f s e|i|o]; simpl in *; try done.
  - by destruct (Hread f eq_refl) as [-> | ->].
  - by destruct (Hread f eq_refl) as [-> | ->].
  - destruct (Hread f eq_refl) as [-> | ->]; [done|]. simpl.
    by rewrite join_lines_slice_of_empty.
Qed.

(** X16.  An empty line range renders nothing: a block that ends before
    it starts, or starts past the end of the file, answers the empty string
    and the pane shows no preview. *)
Theorem empty_block_renders_nothing
    (shown : option string) (ms : list Mentionable)
    (content : string) (file : TFile) (s e : Z) (text : string) :
  displayedMentionable shown ms = Some (MentionableBlock content file s e) →
  readTFileContent file = Some text →
  1 ≤ s → 0 ≤ e →
  e < s ∨ Z.of_nat (length (split_lines text)) < s →
  queryFn (Some (MentionableBlock content file s e)) = Some EmptyString
  ∧ MentionableContentPreview shown ms = NoPreview.
Proof.
  intros Hd Hread Hs He Hempty.
  assert (queryFn (Some (MentionableBlock content file s e)) = Some EmptyString) as Hq.
  { simpl. rewrite Hread. simpl. rewrite js_slice_clamped by done.
    destruct Hempty as [Hes|Hpast].
    - replace (Z.to_nat (e - s + 1)) with 0%nat by lia. by rewrite take_0.
    - rewrite drop_ge by lia. by rewrite take_nil. }
  split; [done|]. unfold MentionableContentPreview. rewrite Hd.
  simpl queryEnabled. cbv iota. by rewrite Hq.
Qed.

(** X17.  After an upload of images with pairwise distinct keys that adds
    at least one image, the pane shows the last added image. *)
Theorem uploaded_image_is_previewed
    (st : State) (images : list MentionableImage) (i : MentionableImage) :
  NoDup ((λ j, keyOf (IsMentionableImage j)) <$> images) →
  last (filter (λ j, keyOf (IsMentionableImage j) ∉ keyOf <$> mentionables st) images)
  = Some i →
  MentionableContentPreview
    (displayedMentionableKey (handleCreateImageMentionables st images))
    (mentionables (handleCreateImageMentionables st images))
  = ImagePreview (data i) (name i).
Proof.
  intros Hnd Hlast. rewrite handleCreateImageMentionables_unfold, Hlast. simpl.
  unfold MentionableContentPreview.
  assert (i ∈ filter (λ j, keyOf (IsMentionableImage j) ∉ keyOf <$> mentionables st)
                images) as Hi.
  { apply last_Some in Hlast as [l' ->]. apply elem_of_app. right. left. }
  rewrite (displayedMentionable_found _ (IsMentionableImage i)); [done| |].
  - apply elem_of_app. right. apply list_elem_of_fmap. eauto.
  - apply list_elem_of_filter in Hi as [Hfresh Hin].
    intros x [Hx|Hx]%elem_of_app Hk.
    + destruct Hfresh. rewrite <- Hk. apply list_elem_of_fmap. eauto.
    + apply list_elem_of_fmap in Hx as (j & -> & Hj).
      apply list_elem_of_filter in Hj as [_ Hj]. f_equal.
      by apply (NoDup_fmap_elem_inj (λ j, keyOf (IsMentionableImage j)) images).
Qed.

(** X18.  Uploading one image of an unlisted key and then deleting it
    restores the list; the deleted key stays displayed, and nothing is
    previewed for it. *)
Theorem upload_then_delete_restores (st : State) (image : MentionableImage) :
  keyOf (IsMentionableImage image) ∉ keyOf <$> mentionables st →
  mentionables (handleMentionableDelete
                  (handleCreateImageMentionables st [image])
                  (IsMentionableImage image))
  = mentionables st
  ∧ displayedMentionableKey (handleMentionableDelete
                               (handleCreateImageMentionables st [image])
                               (IsMentionableImage image))
    = Some (keyOf (IsMentionableImage image))
  ∧ MentionableContentPreview
      (Some (keyOf (IsMentionableImage image)))
      (mentionables (handleMentionableDelete
                       (handleCreateImageMentionables st [image])
                       (IsMentionableImage image)))
    = NoPreview.
Proof.
  intros Hfresh.
  assert (handleCreateImageMentionables st [image]
          = mkState (mentionables st ++ [IsMentionableImage image])
                    (Some (keyOf (IsMentionableImage image))) (editor st)) as ->.
  { rewrite handleCreateImageMentionables_unfold. simpl.
    by rewrite filter_cons_True by done. }
  assert (mentionables (handleMentionableDelete
            (mkState (mentionables st ++ [IsMentionableImage image])
               (Some (keyOf (IsMentionableImage image))) (editor st))
            (IsMentionableImage image)) = mentionables st) as Hlist.
  { simpl. rewrite filter_app, filter_cons_False, filter_nil, app_nil_r by tauto.
    apply filter_all. intros m Hm Hk. apply Hfresh. rewrite <- Hk.
    apply list_elem_of_fmap. eauto. }
  split_and!; [done|done|]. rewrite Hlist.
  apply dangling_key_renders_nothing_aux. by intros k [= <-].
Qed.

End PreviewCoverage.

(** ** Upload of image files *)

Section UploadCoverage.

Context {SerializedMentionable File : Type}.
Variable getMentionableKey : SerializedMentionable → string.
Variable serializeMentionable : Mentionable → SerializedMentionable.
Variable fileToMentionableImage : File → option MentionableImage.

#[local] Abbreviation State := (@State SerializedMentionable).
#[local] Abbreviation handleCreateImageMentionables :=
  (handleCreateImageMentionables getMentionableKey serializeMentionable).
#[local] Abbreviation handleUploadImages :=
  (handleUploadImages getMentionableKey serializeMentionable fileToMentionableImage).

(** X21.  Upload is all or nothing: if the conversion of one selected file
    fails, none of the selected files is added, also not those that
    converted; if all convert, the images are handed on in the order of the
    files. *)
Theorem upload_is_all_or_nothing (st : State) (files : list File) :
  (∀ f, f ∈ files → fileToMentionableImage f = None →
        handleUploadImages st files = st)
  ∧ (∀ images, Forall2 (λ f i, fileToMentionableImage f = Some i) files images →
               handleUploadImages st files
               = handleCreateImageMentionables st images).
Proof.
  unfold handleUploadImages. split.
  - intros f Hf Hfail.
    rewrite (mapM_None_2 fileToMentionableImage files); [done|].
    apply Exists_exists. eauto.
  - intros images Hall. by rewrite (mapM_Some_2 _ _ _ Hall).
Qed.

End UploadCoverage.

(** * The properties on concrete scenarios *)

Import Scenario.

(** The helper model deserializes to a mentionable of the same key. *)
Lemma Helpers_deserialize_key (s : Helpers.SerializedMentionable) (m : Mentionable) :
  Helpers.deserializeMentionable vault s = Some m →
  keyOf m = Helpers.getMentionableKey s.
Proof.
  destruct s as [f|[f|]|c f s e|n d|d]; simpl; repeat case_decide;
    intros ?; by simplify_eq.
Qed.

(** Retyping a mention of A.md while another node for it is alive keeps
    A.md listed. *)
Lemma last_reference_wins_witness :
  fileA ∈ mentionables (handleMentionNodeMutation stateWithA retypeA).
Proof.
  apply (last_reference_wins _ _ _ stateWithA retypeA treeWithA nodeA2 fileA).
  - reflexivity.
  - vm_compute. apply list_elem_of_here.
  - reflexivity.
  - vm_compute. apply list_elem_of_here.
Defined.

(** [FileA] listed, a node for [FileB] created: [FileA; FileB], FileB shown. *)
Lemma reconciler_result_shape_witness :
  handleMentionNodeMutation (mkState [fileA] None None) createB
  = mkState [fileA; fileB] (Some "file:B.md") None.
Proof.
  destruct (reconciler_result_shape Helpers.getMentionableKey
              Helpers.serializeMentionable (Helpers.deserializeMentionable vault)
              (mkState [fileA] None None) createB) as (_ & _ & Hexample).
  apply (Hexample fileA fileB nodeB None None).
  - vm_compute. discriminate.
  - reflexivity.
Defined.

(** The node created for gone.md is displayed and is not listed. *)
Lemma displayed_key_outlives_deserialization_failure_witness :
  displayedMentionableKey (handleMentionNodeMutation (mkState [fileA] None None) createGone)
  = Some "file:gone.md"
  ∧ "file:gone.md"
    ∉ keyOf <$> mentionables
                  (handleMentionNodeMutation (mkState [fileA] None None) createGone).
Proof.
  destruct (displayed_key_outlives_deserialization_failure
              Helpers.getMentionableKey Helpers.serializeMentionable
              (Helpers.deserializeMentionable vault)
              (mkState [fileA] None None) createGone
              (Helpers.SerializedFile "gone.md")) as [Hshown Habsent].
  - reflexivity.
  - reflexivity.
  - split; [exact Hshown|]. apply Habsent. exact Helpers_deserialize_key.
Defined.

(** Deleting A.md leaves B.md listed and no node for A.md in the editor. *)
Lemma delete_is_two_sided_witness :
  mentionables (handleMentionableDelete stateAB fileA) = [fileB]
  ∧ ∃ es', editor (handleMentionableDelete stateAB fileA) = Some es'
           ∧ ∀ n, n ∈ nodesOfType es' →
                  Helpers.getMentionableKey (getMentionable n) ≠ keyOf fileA.
Proof.
  destruct (delete_is_two_sided Helpers.getMentionableKey
              Helpers.serializeMentionable stateAB fileA) as [Hlist Htree].
  split; [exact Hlist|]. apply (Htree treeAB). reflexivity.
Defined.

(** Uploading the photo that is already listed changes nothing. *)
Lemma idempotent_image_upload_witness :
  handleCreateImageMentionables statePhoto [photo] = statePhoto.
Proof.
  destruct (idempotent_image_upload Helpers.getMentionableKey
              Helpers.serializeMentionable statePhoto [photo]) as (_ & _ & Hnoop).
  apply Hnoop. intros i Hi. apply list_elem_of_singleton in Hi. rewrite Hi.
  vm_compute. apply list_elem_of_here.
Defined.

(** Uploading the photo twice at once lists it twice. *)
Lemma duplicate_upload_breaks_key_uniqueness_witness :
  mentionables (handleCreateImageMentionables (mkState [] None None) [photo; photo])
  = [IsMentionableImage photo; IsMentionableImage photo]
  ∧ ¬ NoDup (keyOf <$> mentionables
               (handleCreateImageMentionables (mkState [] None None) [photo; photo])).
Proof.
  destruct (duplicate_upload_breaks_key_uniqueness Helpers.getMentionableKey
              Helpers.serializeMentionable photo None None) as (_ & Hlist & Hdup).
  split; [exact Hlist | exact Hdup].
Defined.

(** Lines 3 to 5 of the six-line note. *)
Lemma block_preview_slice_witness :
  queryEnabled (Some blockX) = true
  ∧ ∃ slice,
      queryFn (Helpers.readTFileContent files) (Some blockX) = Some (join_lines slice)
      ∧ Z.of_nat (length slice) = 5 - 3 + 1
      ∧ ∀ n, 3 ≤ n → n ≤ 5 →
          slice !! Z.to_nat (n - 3) = split_lines textX !! Z.to_nat (n - 1)
          ∧ is_Some (split_lines textX !! Z.to_nat (n - 1)).
Proof.
  apply (block_preview_slice (Helpers.readTFileContent files)
           "l3" (mkTFile "X.md") 3 5 textX).
  - reflexivity.
  - lia.
  - lia.
  - vm_compute. discriminate.
Defined.

Example block_preview_lines_3_to_5 :
  queryFn (Helpers.readTFileContent files) (Some blockX)
  = Some (join_lines ["l3"; "l4"; "l5"]).
Proof. reflexivity. Qed.

(** Past the end of the file the slice stops at the last line: a block
    recorded as lines 5 to 9 of the six-line note previews two lines. *)
Example block_preview_stops_at_end_of_file :
  queryFn (Helpers.readTFileContent files)
          (Some (MentionableBlock "l5" (mkTFile "X.md") 5 9))
  = Some (join_lines ["l5"; "l6"]).
Proof. reflexivity. Qed.

(** A second click on the displayed block opens X.md at line 3. *)
Lemma badge_click_semantics_witness :
  badgeOnClick stateBlockShown blockX
  = (stateBlockShown, Some (mkOpen "X.md" (Some 3)))
  ∧ badgeOnClick stateBlockShown fileA
    = (mkState [fileA; blockX] (Some "file:A.md") None, None).
Proof.
  split.
  - destruct (badge_click_semantics Helpers.getMentionableKey
                Helpers.serializeMentionable stateBlockShown blockX) as [Hopen _].
    apply (Hopen (mkTFile "X.md")); reflexivity.
  - destruct (badge_click_semantics Helpers.getMentionableKey
                Helpers.serializeMentionable stateBlockShown fileA) as [_ Hset].
    apply Hset. intros (_ & _ & Hshown). vm_compute in Hshown. discriminate.
Defined.

(** C7, as stated, fails: the current-file mentionable without an active
    file is of an openable type and is the displayed one, yet a click on
    its badge opens nothing. *)
Lemma badge_click_without_file_opens_nothing :
  noCurrentFile ∈ mentionables stateNoCurrentFile
  ∧ isFileLike noCurrentFile = true
  ∧ displayedMentionableKey stateNoCurrentFile = Some (keyOf noCurrentFile)
  ∧ (badgeOnClick stateNoCurrentFile noCurrentFile).2 = None.
Proof.
  split_and!; [apply list_elem_of_here | reflexivity..].
Qed.

(** ** Further properties on concrete scenarios *)

Lemma covered_batch_is_noop_witness :
  handleMentionNodeMutation stateWithA retypeA = stateWithA.
Proof.
  apply covered_batch_is_noop. intros mu Hin.
  apply elem_of_cons in Hin as [->|Hin];
    [|apply list_elem_of_singleton in Hin as ->].
  - split; intros Hkind; [|discriminate Hkind].
    vm_compute. apply list_elem_of_here.
  - split; intros Hkind; [discriminate Hkind|].
    vm_compute. apply list_elem_of_here.
Defined.

Lemma unreferenced_destroy_removes_witness :
  keyOf blockX
  ∉ keyOf <$> mentionables (handleMentionNodeMutation stateFileAndBlock destroyBlock).
Proof.
  apply (unreferenced_destroy_removes Helpers.getMentionableKey
           Helpers.serializeMentionable (Helpers.deserializeMentionable vault)
           stateFileAndBlock destroyBlock (mkMutation destroyed nodeBlockX)).
  - exact Helpers_deserialize_key.
  - apply list_elem_of_here.
  - reflexivity.
  - apply (bool_decide_unpack _). vm_compute. exact I.
  - apply (bool_decide_unpack _). vm_compute. exact I.
Defined.

Lemma undestroyed_entries_survive_witness :
  fileA ∈ mentionables (handleMentionNodeMutation stateFileAndBlock destroyBlock).
Proof.
  apply undestroyed_entries_survive.
  - apply list_elem_of_here.
  - intros mu Hin%list_elem_of_singleton _. rewrite Hin. vm_compute. discriminate.
Defined.

Lemma delete_absent_is_noop_witness :
  handleMentionableDelete stateWithA fileB = stateWithA.
Proof.
  apply delete_absent_is_noop.
  - apply (bool_decide_unpack _). vm_compute. exact I.
  - apply (bool_decide_unpack _). vm_compute. exact I.
Defined.

Lemma second_click_opens_witness :
  (badgeOnClick (badgeOnClick (mkState [fileA; blockX] None None) blockX).1 blockX).2
  = Some (mkOpen "X.md" (Some 3)).
Proof.
  apply (second_click_opens Helpers.getMentionableKey Helpers.serializeMentionable
           (mkState [fileA; blockX] None None) blockX (mkTFile "X.md"));
    reflexivity.
Defined.

Lemma at_most_one_badge_focused_witness :
  isFocused stateBlockShown blockX = true
  ∧ isFocused stateBlockShown fileA = false
  ∧ blockX = blockX.
Proof.
  split_and!; [reflexivity..|].
  apply (at_most_one_badge_focused Helpers.getMentionableKey
           Helpers.serializeMentionable stateBlockShown blockX blockX).
  - apply (bool_decide_unpack _). vm_compute. exact I.
  - apply list_elem_of_further, list_elem_of_here.
  - apply list_elem_of_further, list_elem_of_here.
  - reflexivity.
  - reflexivity.
Defined.

Lemma whole_file_block_witness :
  queryFn (Helpers.readTFileContent files)
          (Some (MentionableBlock "l1" (mkTFile "X.md") 1 6))
  = Some textX.
Proof.
  apply whole_file_block; [reflexivity | vm_compute; discriminate].
Defined.

Lemma block_preview_clamped_witness :
  queryFn (Helpers.readTFileContent files)
          (Some (MentionableBlock "l5" (mkTFile "X.md") 5 9))
  = Some (join_lines (take (Z.to_nat (9 - 5 + 1))
                           (drop (Z.to_nat (5 - 1)) (split_lines textX)))).
Proof.
  apply block_preview_clamped; [reflexivity | lia | lia].
Defined.

Lemma block_from_line_zero_witness :
  ∃ lastLine, last (split_lines textX) = Some lastLine
              ∧ queryFn (Helpers.readTFileContent files)
                        (Some (MentionableBlock "l1" (mkTFile "X.md") 0 6))
                = Some lastLine.
Proof.
  apply block_from_line_zero; [reflexivity | vm_compute; discriminate].
Defined.

Lemma dangling_key_renders_nothing_witness :
  MentionableContentPreview (Some "file:gone.md") [fileA] = NoPreview.
Proof.
  apply dangling_key_renders_nothing. intros k [= <-].
  apply (bool_decide_unpack _). vm_compute. exact I.
Defined.

Lemma displayed_lookup_round_trip_witness :
  displayedMentionable (Some (keyOf blockX)) [fileA; blockX] = Some blockX.
Proof.
  apply displayed_lookup_round_trip.
  - apply (bool_decide_unpack _). vm_compute. exact I.
  - apply list_elem_of_further, list_elem_of_here.
Defined.

Lemma unreadable_file_renders_nothing_witness :
  MentionableContentPreview (Some (keyOf fileA)) [fileA; blockX] = NoPreview.
Proof.
  apply (unreadable_file_renders_nothing Helpers.getMentionableKey
           Helpers.serializeMentionable (Helpers.readTFileContent files)
           (Some (keyOf fileA)) [fileA; blockX] fileA).
  - reflexivity.
  - reflexivity.
  - intros f [= <-]. left. reflexivity.
Defined.

Lemma empty_block_renders_nothing_witness :
  queryFn (Helpers.readTFileContent files)
          (Some (MentionableBlock "l5" (mkTFile "X.md") 5 3))
  = Some EmptyString
  ∧ MentionableContentPreview
      (Some (keyOf (MentionableBlock "l5" (mkTFile "X.md") 5 3)))
      [MentionableBlock "l5" (mkTFile "X.md") 5 3]
    = NoPreview.
Proof.
  apply (empty_block_renders_nothing Helpers.getMentionableKey
           Helpers.serializeMentionable (Helpers.readTFileContent files)
           _ _ "l5" (mkTFile "X.md") 5 3 textX).
  - reflexivity.
  - reflexivity.
  - lia.
  - lia.
  - left. lia.
Defined.

Lemma uploaded_image_is_previewed_witness :
  MentionableContentPreview
    (displayedMentionableKey (handleCreateImageMentionables (mkState [fileA] None None) [photo]))
    (mentionables (handleCreateImageMentionables (mkState [fileA] None None) [photo]))
  = ImagePreview "iVBORw0KGgo" "photo.png".
Proof.
  apply (uploaded_image_is_previewed Helpers.getMentionableKey
           Helpers.serializeMentionable (Helpers.readTFileContent files)
           (mkState [fileA] None None) [photo] photo).
  - apply (bool_decide_unpack _). vm_compute. exact I.
  - reflexivity.
Defined.

Lemma upload_then_delete_restores_witness :
  mentionables (handleMentionableDelete
                  (handleCreateImageMentionables (mkState [fileA] None None) [photo])
                  (IsMentionableImage photo))
  = [fileA].
Proof.
  apply (upload_then_delete_restores Helpers.getMentionableKey
           Helpers.serializeMentionable (Helpers.readTFileContent files)
           (mkState [fileA] None None) photo).
  apply (bool_decide_unpack _). vm_compute. exact I.
Defined.

Lemma mutation_result_is_ordered_extension_witness :
  ∃ kept added,
    mentionables (handleMentionNodeMutation stateFileAndBlock destroyBlock)
    = kept ++ added
    ∧ kept `sublist_of` mentionables stateFileAndBlock
    ∧ ∀ m, m ∈ added → keyOf m ∉ keyOf <$> mentionables stateFileAndBlock.
Proof.
  apply mutation_result_is_ordered_extension. exact Helpers_deserialize_key.
Defined.

Lemma displayed_key_is_never_cleared_witness :
  displayedMentionableKey (handleMentionableDelete stateBlockShown blockX)
  = displayedMentionableKey stateBlockShown.
Proof.
  apply (displayed_key_is_never_cleared Helpers.getMentionableKey
           Helpers.serializeMentionable (Helpers.deserializeMentionable vault)
           stateBlockShown).
  by eexists.
Defined.

Lemma upload_is_all_or_nothing_witness :
  handleUploadImages (mkState [fileA] None None) ["cat.png"; "broken.png"]
  = mkState [fileA] None None.
Proof.
  apply (proj1 (upload_is_all_or_nothing Helpers.getMentionableKey
                  Helpers.serializeMentionable decodeImage
                  (mkState [fileA] None None) ["cat.png"; "broken.png"])
           "broken.png").
  - apply list_elem_of_further, list_elem_of_here.
  - reflexivity.
Defined.

Lemma mutation_preserves_unique_keys_witness :
  NoDup (keyOf <$> mentionables (handleMentionNodeMutation stateWithA createB)).
Proof.
  apply mutation_preserves_unique_keys.
  - exact Helpers_deserialize_key.
  - apply (bool_decide_unpack _). vm_compute. exact I.
Defined.

Lemma delete_preserves_unique_keys_witness :
  NoDup (keyOf <$> mentionables (handleMentionableDelete stateAB fileA)).
Proof.
  apply delete_preserves_unique_keys.
  apply (bool_decide_unpack _). vm_compute. exact I.
Defined.

Lemma image_upload_preserves_unique_keys_witness :
  NoDup (keyOf <$> mentionables
           (handleCreateImageMentionables statePhoto
              [photo; mkImage "chart.png" "R0lGODlh"])).
Proof.
  apply image_upload_preserves_unique_keys.
  - apply (bool_decide_unpack _). vm_compute. exact I.
  - apply (bool_decide_unpack _). vm_compute. exact I.
Defined.
